(** * fcc: the statement emitter (src/emitter.c)

    A shallow embedding of the statement-level code generator of fcc and of
    its stack-frame layout, followed by the properties the specification
    states about them.

    The emitter walks a typed AST and drives an assembly sink.  The sink, the
    expression emitter, the declaration emitter, the type-size function and
    the debug channel live in other translation units; they enter this
    development as section variables or as small models of the interface the
    emitter uses. *)

From stdpp Require Import base option list gmap strings.
From Stdlib Require Import ZArith Lia.

Local Open Scope Z_scope.

(** ** Enumerations named by emitter.c *)

(** inc/ast.h.  emitter.c names eleven tags; every other tag of the header
    (the module tag, the value tags, ...) is an [astTagOther]. *)
Inductive astTag : Set :=
  | astUsing | astFnImpl | astDecl | astEmpty
  | astBranch | astLoop | astIter | astCode
  | astReturn | astBreak | astContinue
  | astTagOther (n : nat).

Global Instance astTag_eq_dec : EqDecision astTag.
Proof. solve_decision. Defined.

(** inc/sym.h *)
Inductive symTag : Set :=
  | symScope | symId | symParam
  | symTagOther (n : nat).

Global Instance symTag_eq_dec : EqDecision symTag.
Proof. solve_decision. Defined.

(** inc/operand.h *)
Inductive operandTag : Set :=
  | operandUndefined
  | operandTagOther (n : nat).

(** inc/asm.h: the kinds a label is created with *)
Inductive labelTag : Set :=
  | labelReturn | labelElse | labelEndIf
  | labelWhile | labelFor | labelBreak | labelContinue.

(** inc/emitter-value.h: the placement requests emitter.c passes *)
Inductive emitterRequest : Set :=
  | requestVoid | requestFlags | requestReturn.

(** An operand is built by [operandCreate] from a tag, or is a label handed
    out by the assembly sink. *)
Inductive operand : Set :=
  | operandCreate (tag : operandTag)
  | operandLabel (kind : labelTag) (label : nat).

Global Instance operandTag_eq_dec : EqDecision operandTag.
Proof. solve_decision. Defined.
Global Instance labelTag_eq_dec : EqDecision labelTag.
Proof. solve_decision. Defined.
Global Instance operand_eq_dec : EqDecision operand.
Proof. solve_decision. Defined.

(** ** The AST (inc/ast.h)

    A node has a tag, the sibling-linked list of its children
    ([firstChild], [nextSibling]), two named child slots [l] and [r] that
    may be null, and a pointer to its symbol.  The emitter only reads the
    tree.  Symbols are mutated in place, so the node holds a reference into
    the symbol store, not a copy. *)

Abbreviation symRef := nat (only parsing).

#[local] Set Warnings "-register-all".

Inductive ast : Set := Ast {
  tag : astTag;
  children : list ast;
  l : option ast;
  r : option ast;
  symbol : option symRef
}.

(** [Node->firstChild] *)
Definition firstChild (Node : ast) : option ast := head (children Node).

(** Induction over the tree, with the hypothesis available for every child
    and for both slots. *)
Definition optionForall {A} (P : A → Prop) (o : option A) : Prop :=
  match o with Some a => P a | None => True end.

Section ast_induction.
Variable P : ast → Prop.
Hypothesis step : ∀ t ch lo ro s,
  Forall P ch → optionForall P lo → optionForall P ro → P (Ast t ch lo ro s).

Fixpoint ast_nested_ind (Node : ast) : P Node :=
  match Node with
  | Ast t ch lo ro s =>
      step t ch lo ro s
        ((fix all (cs : list ast) : Forall P cs :=
            match cs with
            | [] => @List.Forall_nil ast P
            | c :: cs' => @List.Forall_cons ast P c cs' (ast_nested_ind c) (all cs')
            end) ch)
        (match lo return optionForall P lo with
         | Some a => ast_nested_ind a | None => I end)
        (match ro return optionForall P ro with
         | Some a => ast_nested_ind a | None => I end)
  end.
End ast_induction.

(** ** What the assembly sink receives

    The sink (inc/asm.h) is driven through a handful of primitives.  Its
    state is the sequence of calls made on it so far and the number of the
    next label.  A call of the expression emitter or of the declaration
    emitter is recorded as one event: what those emit is their own business. *)

Inductive asmEvent : Set :=
  | EvFilePrologue
  | EvFileEpilogue
  | EvFnPrologue (name : Z) (localSize : Z)
  | EvFnEpilogue (EndLabel : operand)
  | EvEnter
  | EvLeave
  | EvComment (text : string)
  | EvLabel (L : operand)
  | EvJump (L : operand)
  | EvBranch (Condition : operand) (L : operand)
  | EvValue (Node : option ast) (request : emitterRequest)
  | EvDecl (Node : ast).

Record asmCtx : Set := AsmCtx {
  filename : string;
  asmLog : list asmEvent;
  labelNo : nat
}.

(** The diagnostic of [debugErrorUnhandled] *)
Record diagnostic : Set := Diagnostic {
  functionName : string;
  className : string;
  classStr : string
}.

(** ** Types and symbols (inc/type.h, inc/sym.h, inc/architecture.h) *)

(** Modelled from the spec: inc/type.h is not among the sources.  Type
    representation is an external collaborator; the emitter holds a type by
    pointer and only hands it to [typeGetSize] and [typeGetReturn], so a
    type is identified here by the address it is held at. *)
Inductive type : Set := TypeAt (address : nat).

(** A symbol owns the vector of its children; [offset] and [label] are the
    two fields the emitter writes. *)
Inductive sym : Set := Sym {
  sym_tag : symTag;
  dt : type;
  sym_children : list sym;
  offset : Z;
  label : Z
}.

(** The word size and the mangler, a function pointer that receives the
    symbol and writes it in place. *)
Record architecture : Set := Architecture {
  wordsize : Z;
  symbolMangler : sym → sym
}.

(** Induction over a symbol and all the symbols below it *)
Section sym_induction.
Variable P : sym → Prop.
Hypothesis step : ∀ t d cs o lb, Forall P cs → P (Sym t d cs o lb).

End sym_induction.

(** ** The emission context (inc/emitter.h) *)
Record emitterCtx : Set := EmitterCtx {
  Asm : asmCtx;
  arch : architecture;
  labelReturnTo : operand;
  labelBreakTo : operand;
  labelContinueTo : operand
}.

Definition setAsm (a : asmCtx) (ctx : emitterCtx) : emitterCtx :=
  EmitterCtx a (arch ctx) (labelReturnTo ctx) (labelBreakTo ctx) (labelContinueTo ctx).
Definition setLabelReturnTo (L : operand) (ctx : emitterCtx) : emitterCtx :=
  EmitterCtx (Asm ctx) (arch ctx) L (labelBreakTo ctx) (labelContinueTo ctx).
Definition setLabelBreakTo (L : operand) (ctx : emitterCtx) : emitterCtx :=
  EmitterCtx (Asm ctx) (arch ctx) (labelReturnTo ctx) L (labelContinueTo ctx).
Definition setLabelContinueTo (L : operand) (ctx : emitterCtx) : emitterCtx :=
  EmitterCtx (Asm ctx) (arch ctx) (labelReturnTo ctx) (labelBreakTo ctx) L.

(** ** Sample collaborators and programs

    A small instance of everything the emitter takes from outside, and a
    few trees and symbols, to run the emitter on. *)
Module Sample.

Definition intType : type := TypeAt 1.
Definition longType : type := TypeAt 2.
Definition fnType : type := TypeAt 3.

Definition typeGetSize (a : architecture) (t : type) : Z :=
  match t with
  | TypeAt 1 => 4
  | TypeAt 2 => 8
  | TypeAt _ => 0
  end.

Definition typeGetReturn (t : type) : type :=
  match t with
  | TypeAt 3 => longType
  | _ => t
  end.

Definition astModule : astTag := astTagOther 0.
Definition astLiteral : astTag := astTagOther 1.
Definition astStruct : astTag := astTagOther 2.

Definition astIsValueTag (t : astTag) : bool := bool_decide (t = astLiteral).

Definition astTagGetStr (t : astTag) : string :=
  match t with
  | astTagOther 0 => "astModule"
  | astTagOther 1 => "astLiteral"
  | astTagOther 2 => "astStruct"
  | _ => "ast"
  end.

Definition flags : operand := operandCreate (operandTagOther 1).
Definition valueOperand (Node : option ast) (request : emitterRequest) : operand := flags.
Definition valueLabels (Node : option ast) (request : emitterRequest) : nat := 0.
Definition declLabels (Node : ast) : nat := 0.

Definition mangle (Symbol : sym) : sym :=
  Sym (sym_tag Symbol) (dt Symbol) (sym_children Symbol) (offset Symbol) 1.

Definition amd64 : architecture := Architecture 8 mangle.

(** What the allocator left in the continue field *)
Definition heap : operand := operandCreate (operandTagOther 9).

Definition ctx0 : emitterCtx :=
  EmitterCtx (AsmCtx "out.s" [] 0) amd64
    (operandCreate operandUndefined) (operandCreate operandUndefined) heap.

Definition leaf (t : astTag) : ast := Ast t [] None None None.
Definition block (lines : list ast) : ast := Ast astCode lines None None None.
Definition literal : ast := leaf astLiteral.
Definition empty : ast := leaf astEmpty.

(** [while (1) { break; }] and [do { continue; } while (1);] *)
Definition whileLoop : ast :=
  Ast astLoop [] (Some literal) (Some (block [leaf astBreak])) None.

(** [if (1) { 1; } else { break; }] *)
Definition ifElse : ast :=
  Ast astBranch [literal] (Some (block [literal]))
    (Some (block [leaf astBreak])) None.

(** [for (1; 1; 1) { continue; }] *)
Definition forLoop : ast :=
  Ast astIter [literal; literal; literal]
    (Some (block [leaf astContinue])) None None.

(** A function with two return statements, one of them inside a loop *)
Definition returnValue : ast := Ast astReturn [] None (Some literal) None.
Definition fnBody : ast :=
  block [Ast astLoop [] (Some literal) (Some (block [returnValue])) None;
         leaf astReturn].
Definition fnImpl : ast := Ast astFnImpl [] None (Some fnBody) (Some 0%nat).

(** A module whose second top-level node carries a tag the module dispatch
    does not know *)
Definition badModule : ast :=
  Ast astModule [fnImpl; leaf astStruct; fnImpl] None None None.


Definition varX : sym := Sym symId intType [] 0 0.
Definition varY : sym := Sym symId intType [] 0 0.
Definition innerScope : sym := Sym symScope intType [varY] 0 0.
Definition fnXY : sym := Sym symId fnType [varX; innerScope] 0 0.

Definition syms : gmap nat sym := {[ 0%nat := fnXY ]}.

End Sample.

Section Emitter.

(** ** Collaborators *)

(** inc/type.h: the size of a type on an architecture and the return type
    of a function type.  C [int] results are integers; the frame arithmetic
    below is the mathematical one (signed overflow is undefined in C and a
    frame of 2^31 bytes is out of reach). *)
Variable typeGetSize : architecture → type → Z.
Variable typeGetReturn : type → type.

(** inc/ast.h: the predicate on tags and the printer of tags *)
Variable astIsValueTag : astTag → bool.
Variable astTagGetStr : astTag → string.

(** inc/emitter-value.h, inc/emitter-decl.h: the operand the expression
    emitter hands back, and how many labels each collaborator draws from
    the sink while it runs. *)
Variable valueOperand : option ast → emitterRequest → operand.
Variable valueLabels : option ast → emitterRequest → nat.
Variable declLabels : ast → nat.

(** ** The emitter monad

    Every function of emitter.c takes the context by pointer and returns
    nothing the caller inspects, apart from operands.  A run either
    completes, or stops at a fatal diagnostic, or dereferences a null
    pointer ([Undef]: the C program has no defined behaviour). *)
Inductive outcome (A : Type) : Type :=
  | Done (a : A) (ctx : emitterCtx)
  | Fatal (d : diagnostic) (ctx : emitterCtx)
  | Undef.
Global Arguments Done {A} a ctx.
Global Arguments Fatal {A} d ctx.
Global Arguments Undef {A}.

Definition emit (A : Type) : Type := emitterCtx → outcome A.

#[local] Instance emit_ret : MRet emit := λ A a ctx, Done a ctx.
#[local] Instance emit_bind : MBind emit := λ A B f m ctx,
  match m ctx with
  | Done a ctx' => f a ctx'
  | Fatal d ctx' => Fatal d ctx'
  | Undef => Undef
  end.

Definition gets {A} (f : emitterCtx → A) : emit A := λ ctx, Done (f ctx) ctx.
Definition modify (f : emitterCtx → emitterCtx) : emit unit := λ ctx, Done tt (f ctx).
Definition undef {A} : emit A := λ _, Undef.

(** [p->...] on a pointer that may be null *)
Definition deref {A B} (p : option A) (k : A → emit B) : emit B :=
  match p with Some a => k a | None => undef end.

(** Modelled from the spec: inc/debug.h is not among the sources.  The
    trace of entered and left functions is no part of what the pass emits,
    so these three do nothing to the context. *)
Definition debugEnter (name : string) : emit unit := mret tt.
Definition debugLeave : emit unit := mret tt.
Definition debugMsg (text : string) : emit unit := mret tt.

(** Modelled from the spec: [debugErrorUnhandled] of debug.c is not among
    the sources.  The specification makes the unhandled-tag failure fatal:
    it aborts the whole compilation immediately with a diagnostic that names
    the offending tag, and the pass is not resumable past it. *)
Definition debugErrorUnhandled {A} (fn cls str : string) : emit A :=
  λ ctx, Fatal (Diagnostic fn cls str) ctx.

(** ** The sink primitives *)

(** Modelled from the spec: asm.c is not among the sources.  The sink
    starts empty; each primitive is an opaque effect on it, recorded in call
    order ([asmEmit]); a collaborator may draw labels from it ([asmDraw]). *)
Definition asmInit (output : string) (a : architecture) : asmCtx :=
  AsmCtx output [] 0.

Definition asmEmit (e : asmEvent) (a : asmCtx) : asmCtx :=
  AsmCtx (filename a) (asmLog a ++ [e]) (labelNo a).

Definition asmDraw (n : nat) (a : asmCtx) : asmCtx :=
  AsmCtx (filename a) (asmLog a) (labelNo a + n)%nat.

Definition onAsm (f : asmCtx → asmCtx) : emit unit :=
  modify (λ ctx, setAsm (f (Asm ctx)) ctx).

(** Modelled from the spec: the primitives the emitter consumes, each one
    an effect with no result the emitter inspects. *)
Definition asmFilePrologue : emit unit := onAsm (asmEmit EvFilePrologue).
Definition asmFileEpilogue : emit unit := onAsm (asmEmit EvFileEpilogue).
Definition asmFnPrologue (name stacksize : Z) : emit unit :=
  onAsm (asmEmit (EvFnPrologue name stacksize)).
Definition asmFnEpilogue (EndLabel : operand) : emit unit :=
  onAsm (asmEmit (EvFnEpilogue EndLabel)).
Definition asmEnter : emit unit := onAsm (asmEmit EvEnter).
Definition asmLeave : emit unit := onAsm (asmEmit EvLeave).
Definition asmComment (text : string) : emit unit := onAsm (asmEmit (EvComment text)).
Definition asmLabel (L : operand) : emit unit := onAsm (asmEmit (EvLabel L)).
Definition asmJump (L : operand) : emit unit := onAsm (asmEmit (EvJump L)).
Definition asmBranch (Condition L : operand) : emit unit :=
  onAsm (asmEmit (EvBranch Condition L)).

(** Modelled from the spec: creating a label hands out the next unused
    label, tagged with its kind. *)
Definition asmCreateLabel (kind : labelTag) : emit operand :=
  λ ctx, Done (operandLabel kind (labelNo (Asm ctx)))
              (setAsm (AsmCtx (filename (Asm ctx)) (asmLog (Asm ctx))
                         (S (labelNo (Asm ctx)))) ctx).

(** Modelled from the spec: emitter-value.c and emitter-decl.c are not
    among the sources.  The expression emitter takes a node and a placement
    request and hands back an operand; the declaration emitter handles one
    declaration node.  What they emit is recorded as one event each. *)
Definition emitterValue (Node : option ast) (request : emitterRequest) : emit operand :=
  λ ctx, Done (valueOperand Node request)
              (setAsm (asmDraw (valueLabels Node request)
                         (asmEmit (EvValue Node request) (Asm ctx))) ctx).

Definition emitterDecl (Node : ast) : emit unit :=
  onAsm (λ a, asmDraw (declLabels Node) (asmEmit (EvDecl Node) a)).

(** ** Statements (emitter.c, lines 147-348)

    The five statement functions are mutually recursive in C.  Each is
    written here over the function that lowers one line; [emitterLine]
    closes the knot by recursion on the tree. *)

Fixpoint forEach {A} (f : A → emit unit) (xs : list A) : emit unit :=
  match xs with
  | [] => mret tt
  | x :: xs' => f x;; forEach f xs'
  end.

Definition emitterCode_ (line : ast → emit unit) (Node : ast) : emit unit :=
  asmEnter;;
  forEach line (children Node);;
  asmLeave.

Definition emitterReturn (Node : ast) : emit unit :=
  debugEnter "Return";;
  (* Non void return? *)
  match r Node with
  | Some v => _ ← emitterValue (Some v) requestReturn; mret tt
  | None => mret tt
  end;;
  L ← gets labelReturnTo; asmJump L;;
  debugLeave.

Definition emitterBranch_ (line : ast → emit unit) (Node : ast) : emit unit :=
  debugEnter "Branch";;
  ElseLabel ← asmCreateLabel labelElse;
  EndLabel ← asmCreateLabel labelEndIf;
  (* Compute the condition, requesting it be placed in the flags *)
  Condition ← emitterValue (firstChild Node) requestFlags;
  asmBranch Condition ElseLabel;;
  deref (l Node) (emitterCode_ line);;
  match r Node with
  | Some else_ =>
      asmComment EmptyString;;
      asmJump EndLabel;;
      asmLabel ElseLabel;;
      emitterCode_ line else_;;
      asmLabel EndLabel
  | None => asmLabel ElseLabel
  end;;
  debugLeave.

Definition emitterLoop_ (line : ast → emit unit) (Node : ast) : emit unit :=
  debugEnter "Loop";;
  (* The place to return to loop again (after confirming condition) *)
  LoopLabel ← asmCreateLabel labelWhile;
  OldBreakTo ← gets labelBreakTo;
  OldContinueTo ← gets labelContinueTo;
  EndLabel ← asmCreateLabel labelBreak;
  modify (setLabelBreakTo EndLabel);;
  ContinueLabel ← asmCreateLabel labelContinue;
  modify (setLabelContinueTo ContinueLabel);;
  (* Work out which order the condition and code came in
     => whether this is a while or a do while *)
  deref (l Node) (λ lnode,
    let isDo := bool_decide (tag lnode = astCode) in
    let cond := if isDo then r Node else l Node in
    let code := if isDo then l Node else r Node in
    (* Condition *)
    (if negb isDo
     then Condition ← emitterValue cond requestFlags; asmBranch Condition EndLabel
     else mret tt);;
    (* Code *)
    asmLabel LoopLabel;;
    deref code (emitterCode_ line);;
    asmComment EmptyString;;
    (* Condition *)
    ContinueTo ← gets labelContinueTo; asmLabel ContinueTo;;
    Condition ← emitterValue cond requestFlags; asmBranch Condition EndLabel;;
    asmJump LoopLabel;;
    asmLabel EndLabel;;
    modify (setLabelBreakTo OldBreakTo);;
    modify (setLabelContinueTo OldContinueTo);;
    debugLeave).

Definition emitterIter_ (line : ast → emit unit) (Node : ast) : emit unit :=
  debugEnter "Iter";;
  match children Node with
  | init :: cond :: rest =>
      LoopLabel ← asmCreateLabel labelFor;
      OldBreakTo ← gets labelBreakTo;
      OldContinueTo ← gets labelContinueTo;
      EndLabel ← asmCreateLabel labelBreak;
      modify (setLabelBreakTo EndLabel);;
      ContinueLabel ← asmCreateLabel labelContinue;
      modify (setLabelContinueTo ContinueLabel);;
      (* Initialize stuff *)
      (if decide (tag init = astDecl) then
         emitterDecl init;; asmComment EmptyString
       else if astIsValueTag (tag init) then
         _ ← emitterValue (Some init) requestVoid; asmComment EmptyString
       else if decide (tag init ≠ astEmpty) then
         debugErrorUnhandled "emitterIter" "AST tag" (astTagGetStr (tag init))
       else mret tt);;
      (* Check condition *)
      asmLabel LoopLabel;;
      (if decide (tag cond ≠ astEmpty) then
         Condition ← emitterValue (Some cond) requestFlags;
         asmBranch Condition EndLabel
       else mret tt);;
      (* Do block *)
      deref (l Node) (emitterCode_ line);;
      asmComment EmptyString;;
      (* Iterate *)
      ContinueTo ← gets labelContinueTo; asmLabel ContinueTo;;
      deref (head rest) (λ iter,
        (if decide (tag iter ≠ astEmpty) then
           _ ← emitterValue (Some iter) requestVoid; asmComment EmptyString
         else mret tt);;
        (* loopen Sie *)
        asmJump LoopLabel;;
        asmLabel EndLabel;;
        modify (setLabelBreakTo OldBreakTo);;
        modify (setLabelContinueTo OldContinueTo);;
        debugLeave)
  | _ => undef   (* init->nextSibling or cond->nextSibling on a null pointer *)
  end.

Fixpoint emitterLine (Node : ast) : emit unit :=
  debugEnter "Line";;
  asmComment EmptyString;;
  (if decide (tag Node = astBranch) then emitterBranch_ emitterLine Node
   else if decide (tag Node = astLoop) then emitterLoop_ emitterLine Node
   else if decide (tag Node = astIter) then emitterIter_ emitterLine Node
   else if decide (tag Node = astCode) then emitterCode_ emitterLine Node
   else if decide (tag Node = astReturn) then emitterReturn Node
   else if decide (tag Node = astBreak) then
     BreakTo ← gets labelBreakTo; asmJump BreakTo
   else if decide (tag Node = astContinue) then
     ContinueTo ← gets labelContinueTo; asmJump ContinueTo
   else if decide (tag Node = astDecl) then emitterDecl Node
   else if astIsValueTag (tag Node) then
     _ ← emitterValue (Some Node) requestVoid; mret tt
   else if decide (tag Node = astEmpty) then debugMsg "Empty"
   else debugErrorUnhandled "emitterLine" "AST tag" (astTagGetStr (tag Node)));;
  debugLeave.

Definition emitterCode : ast → emit unit := emitterCode_ emitterLine.
Definition emitterBranch : ast → emit unit := emitterBranch_ emitterLine.
Definition emitterLoop : ast → emit unit := emitterLoop_ emitterLine.
Definition emitterIter : ast → emit unit := emitterIter_ emitterLine.

(** ** Frame layout (emitter.c, lines 82-125)

    Both functions write [offset] fields in place and return an [int]; here
    they return the written symbol together with the integer.
    [reportSymbol] only reports and is left out. *)

Definition setOffset (o : Z) (Symbol : sym) : sym :=
  Sym (sym_tag Symbol) (dt Symbol) (sym_children Symbol) o (label Symbol).
Definition setChildren (cs : list sym) (Symbol : sym) : sym :=
  Sym (sym_tag Symbol) (dt Symbol) cs (offset Symbol) (label Symbol).

(** The [for] loop over a vector of children, threading the offset *)
Fixpoint scopeLoop (visit : sym → Z → sym * Z) (cs : list sym) (offset : Z)
    : list sym * Z :=
  match cs with
  | [] => ([], offset)
  | Symbol :: rest =>
      let '(Symbol', offset') := visit Symbol offset in
      let '(rest', offset'') := scopeLoop visit rest offset' in
      (Symbol' :: rest', offset'')
  end.

Definition scopeVisit_ (scope : sym → Z → sym * Z) (a : architecture)
    (Symbol : sym) (offset : Z) : sym * Z :=
  if decide (sym_tag Symbol = symScope) then scope Symbol offset
  else if decide (sym_tag Symbol = symId) then
    let offset := offset - typeGetSize a (dt Symbol) in
    (setOffset offset Symbol, offset)
  else (Symbol, offset).

Fixpoint emitterScopeAssignOffsets (a : architecture) (Scope : sym) (offset : Z)
    {struct Scope} : sym * Z :=
  let '(cs, offset) :=
    scopeLoop (scopeVisit_ (emitterScopeAssignOffsets a) a) (sym_children Scope) offset in
  (setChildren cs Scope, offset).

Definition scopeVisit (a : architecture) : sym → Z → sym * Z :=
  scopeVisit_ (emitterScopeAssignOffsets a) a.

(** The parameter loop: it stops at the first child that is no parameter *)
Fixpoint paramLoop (a : architecture) (cs : list sym) (lastOffset : Z) : list sym :=
  match cs with
  | [] => []
  | param :: rest =>
      if decide (sym_tag param ≠ symParam) then param :: rest
      else setOffset lastOffset param
             :: paramLoop a rest (lastOffset + typeGetSize a (dt param))
  end.

(** Two words already on the stack: return ptr and saved base pointer;
    one more when returning through a temporary *)
Definition paramBase (a : architecture) (fn : sym) : Z :=
  let lastOffset := 2 * wordsize a in
  if decide (typeGetSize a (typeGetReturn (dt fn)) > wordsize a)
  then lastOffset + wordsize a
  else lastOffset.

Definition emitterFnAllocateStack (a : architecture) (fn : sym) : sym * Z :=
  let lastOffset := paramBase a fn in
  (* Assign offsets to all the parameters *)
  let fn := setChildren (paramLoop a (sym_children fn) lastOffset) fn in
  (* Allocate stack space for all the auto variables
     Stack grows down, so the amount is the negation of the last offset *)
  let '(fn, offset) := emitterScopeAssignOffsets a fn 0 in
  (fn, - offset).

(** ** Functions and modules (emitter.c, lines 32-80 and 127-145)

    [Node->symbol] points into the symbol store; a null or dangling pointer
    has no defined behaviour. *)

Abbreviation symStore := (gmap nat sym) (only parsing).

Definition emitterFnImpl (Node : ast) (syms : symStore) : emit symStore :=
  debugEnter "FnImpl";;
  match symbol Node with
  | None => undef
  | Some p =>
      match syms !! p with
      | None => undef
      | Some fn =>
          a ← gets arch;
          let fn := if decide (label fn = 0) then symbolMangler a fn else fn in
          let '(fn, stacksize) := emitterFnAllocateStack a fn in
          let syms := <[p := fn]> syms in
          (* Label to jump to from returns *)
          EndLabel ← asmCreateLabel labelReturn;
          modify (setLabelReturnTo EndLabel);;
          asmComment EmptyString;;
          asmFnPrologue (label fn) stacksize;;
          deref (r Node) emitterCode;;
          asmFnEpilogue EndLabel;;
          debugLeave;;
          mret syms
      end
  end.

Fixpoint forEachSym (f : ast → symStore → emit symStore) (xs : list ast)
    (syms : symStore) : emit symStore :=
  match xs with
  | [] => mret syms
  | x :: xs' => syms' ← f x syms; forEachSym f xs' syms'
  end.

Definition emitterModuleChild_ (module : ast → symStore → emit symStore)
    (Current : ast) (syms : symStore) : emit symStore :=
  if decide (tag Current = astUsing) then
    match r Current with
    | Some m => module m syms
    | None => mret syms
    end
  else if decide (tag Current = astFnImpl) then emitterFnImpl Current syms
  else if decide (tag Current = astDecl) then emitterDecl Current;; mret syms
  else if decide (tag Current = astEmpty) then debugMsg "Empty";; mret syms
  else debugErrorUnhandled "emitterModule" "AST tag" (astTagGetStr (tag Current)).

Fixpoint emitterModule (Node : ast) (syms : symStore) : emit symStore :=
  debugEnter "Module";;
  syms' ← forEachSym (emitterModuleChild_ emitterModule) (children Node) syms;
  debugLeave;;
  mret syms'.

Definition emitterModuleChild : ast → symStore → emit symStore :=
  emitterModuleChild_ emitterModule.

(** [malloc] hands out storage whose contents are indeterminate.
    [emitterInit] writes four of the five fields; [heap] is what the fifth
    happens to hold. *)
Definition emitterInit (output : string) (a : architecture) (heap : operand)
    : emitterCtx :=
  {| Asm := asmInit output a;
     arch := a;
     labelReturnTo := operandCreate operandUndefined;
     labelBreakTo := operandCreate operandUndefined;
     labelContinueTo := heap |}.

(** [asmEnd] closes the file and [free] releases the context; neither
    emits anything. *)
Definition emitterEnd : emit unit := mret tt.

Definition emitter (Tree : ast) (output : string) (a : architecture)
    (heap : operand) (syms : symStore) : outcome symStore :=
  (asmFilePrologue;;
   syms' ← emitterModule Tree syms;
   asmFileEpilogue;;
   emitterEnd;;
   mret syms') (emitterInit output a heap).

(** ** The specification's vocabulary

    Definitions that follow the words of the specification, and the
    invariants the proofs carry. *)


(** The automatic variables of a scope in depth-first declaration order: a
    scope-tagged child contributes its own variables, an identifier-tagged
    child is one, any other child is skipped. *)
Definition autoVisit_ (autos : sym → list sym) (Symbol : sym) : list sym :=
  if decide (sym_tag Symbol = symScope) then autos Symbol
  else if decide (sym_tag Symbol = symId) then [Symbol]
  else [].

Fixpoint autos (Scope : sym) : list sym :=
  flat_map (autoVisit_ autos) (sym_children Scope).






Definition isFnEpilogue (e : asmEvent) : bool :=
  match e with EvFnEpilogue _ => true | _ => false end.

(** What a statement may do to the context: it appends to the log, draws
    labels, and leaves the architecture, the file and the return target
    alone.  It never emits an epilogue. *)
Record extends (ctx ctx' : emitterCtx) : Prop := Extends {
  ext_arch : arch ctx' = arch ctx;
  ext_file : filename (Asm ctx') = filename (Asm ctx);
  ext_return : labelReturnTo ctx' = labelReturnTo ctx;
  ext_labelNo : (labelNo (Asm ctx) ≤ labelNo (Asm ctx'))%nat;
  ext_log : ∃ evs, asmLog (Asm ctx') = asmLog (Asm ctx) ++ evs
                   ∧ Forall (λ e, isFnEpilogue e = false) evs
}.

Definition sameTargets (ctx ctx' : emitterCtx) : Prop :=
  labelBreakTo ctx' = labelBreakTo ctx ∧ labelContinueTo ctx' = labelContinueTo ctx.

Definition lineOk (m : emit unit) : Prop :=
  ∀ ctx, match m ctx with
         | Done _ c => extends ctx c ∧ sameTargets ctx c
         | Fatal _ c => extends ctx c
         | Undef => True
         end.

Definition codeOk (line : ast → emit unit) (p : option ast) : Prop :=
  optionForall (λ n, lineOk (emitterCode_ line n)) p.

(** * Properties *)



Lemma emitterScopeAssignOffsets_unfold a Scope start :
  emitterScopeAssignOffsets a Scope start
  = let '(cs, offset) := scopeLoop (scopeVisit a) (sym_children Scope) start in
    (setChildren cs Scope, offset).
Proof. by destruct Scope. Qed.







Lemma scopeLoop_length visit cs start :
  length (scopeLoop visit cs start).1 = length cs.
Proof.
  revert start. induction cs as [|c cs IH]; intros start; [done|].
  cbn [scopeLoop]. destruct (visit c start) as [c' mid].
  specialize (IH mid). destruct (scopeLoop visit cs mid). cbn in *. by rewrite IH.
Qed.






Lemma emitterFnAllocateStack_unfold a fn :
  emitterFnAllocateStack a fn
  = let fn1 := setChildren (paramLoop a (sym_children fn) (paramBase a fn)) fn in
    ((emitterScopeAssignOffsets a fn1 0).1, - (emitterScopeAssignOffsets a fn1 0).2).
Proof.
  unfold emitterFnAllocateStack. by destruct (emitterScopeAssignOffsets _ _ _).
Qed.









Ltac run :=
  cbv beta iota zeta delta
    [mbind emit_bind mret emit_ret debugEnter debugLeave debugMsg debugErrorUnhandled
     gets modify onAsm undef deref
     asmCreateLabel asmLabel asmJump asmBranch asmComment asmEnter asmLeave
     asmFnPrologue asmFnEpilogue asmFilePrologue asmFileEpilogue
     emitterValue emitterDecl emitterEnd
     setAsm setLabelReturnTo setLabelBreakTo setLabelContinueTo asmEmit asmDraw];
  cbn [Asm arch labelReturnTo labelBreakTo labelContinueTo filename asmLog labelNo negb].

Lemma extends_refl ctx : extends ctx ctx.
Proof.
  split; try reflexivity. exists []. by rewrite app_nil_r.
Qed.

Lemma extends_trans c1 c2 c3 : extends c1 c2 → extends c2 c3 → extends c1 c3.
Proof.
  intros [A1 F1 R1 N1 (e1 & L1 & E1)] [A2 F2 R2 N2 (e2 & L2 & E2)].
  split; try congruence; try lia.
  exists (e1 ++ e2). rewrite L2, L1, app_assoc. split; [done|].
  by apply Forall_app.
Qed.

Ltac ext_explicit :=
  split;
  cbn [Asm arch labelReturnTo labelBreakTo labelContinueTo filename asmLog labelNo];
  try reflexivity; try lia;
  first [ exists []; split; [by rewrite app_nil_r | constructor]
        | eexists; split;
          [rewrite <- ?app_assoc; reflexivity | repeat constructor] ].

Lemma lineOk_seq m1 m2 : lineOk m1 → lineOk m2 → lineOk (m1;; m2).
Proof.
  intros H1 H2 ctx. specialize (H1 ctx). unfold mbind, emit_bind.
  destruct (m1 ctx) as [[] c1| |]; [|done..].
  specialize (H2 c1). destruct H1 as [X1 [B1 C1]].
  destruct (m2 c1) as [[] c2| |]; [| |done].
  - destruct H2 as [X2 [B2 C2]]. split; [by eapply extends_trans|].
    split; congruence.
  - by eapply extends_trans.
Qed.

Lemma lineOk_ret : lineOk (mret tt).
Proof. intros ctx. split; [apply extends_refl | done]. Qed.

Lemma lineOk_emit e : isFnEpilogue e = false → lineOk (onAsm (asmEmit e)).
Proof.
  intros He ctx. run. split; [|done].
  split; cbn; try reflexivity. exists [e]. split; [done|]. by constructor.
Qed.

Lemma lineOk_label kind (k : operand → emit unit) :
  (∀ L, lineOk (k L)) → lineOk (L ← asmCreateLabel kind; k L).
Proof.
  intros Hk ctx. run.
  match goal with |- context [k ?L ?c] => specialize (Hk L c); destruct (k L c) as [[] c'| |] end;
    [| |done].
  - destruct Hk as [X T]. split; [|exact T].
    eapply extends_trans; [|exact X]. ext_explicit.
  - eapply extends_trans; [|exact Hk]. ext_explicit.
Qed.

Lemma lineOk_value Node request (k : operand → emit unit) :
  (∀ v, lineOk (k v)) → lineOk (v ← emitterValue Node request; k v).
Proof.
  intros Hk ctx. run.
  match goal with |- context [k ?L ?c] => specialize (Hk L c); destruct (k L c) as [[] c'| |] end;
    [| |done].
  - destruct Hk as [X T]. split; [|exact T].
    eapply extends_trans; [|exact X]. ext_explicit.
  - eapply extends_trans; [|exact Hk]. ext_explicit.
Qed.

Lemma lineOk_gets {A} (f : emitterCtx → A) (k : A → emit unit) :
  (∀ x, lineOk (k x)) → lineOk (x ← gets f; k x).
Proof. intros Hk ctx. run. apply Hk. Qed.

Lemma lineOk_decl Node : lineOk (emitterDecl Node).
Proof.
  intros ctx. run. split; [|done]. ext_explicit.
Qed.

Lemma lineOk_unhandled fn cls str : lineOk (debugErrorUnhandled fn cls str).
Proof. intros ctx. apply extends_refl. Qed.

Lemma lineOk_undef : lineOk undef.
Proof. by intros ctx. Qed.

Lemma lineOk_forEach (line : ast → emit unit) xs :
  Forall (λ x, lineOk (line x)) xs → lineOk (forEach line xs).
Proof.
  induction 1; cbn [forEach]; [apply lineOk_ret | by apply lineOk_seq].
Qed.

Lemma lineOk_code (line : ast → emit unit) Node :
  Forall (λ x, lineOk (line x)) (children Node) → lineOk (emitterCode_ line Node).
Proof.
  intros H. unfold emitterCode_.
  apply lineOk_seq; [by apply lineOk_emit|].
  apply lineOk_seq; [by apply lineOk_forEach | by apply lineOk_emit].
Qed.

Lemma lineOk_return Node : lineOk (emitterReturn Node).
Proof.
  unfold emitterReturn, debugEnter, debugLeave.
  apply lineOk_seq; [apply lineOk_ret|].
  apply lineOk_seq.
  - destruct (r Node); [|apply lineOk_ret].
    apply lineOk_value. intros _. apply lineOk_ret.
  - apply lineOk_gets. intros L.
    apply lineOk_seq; [by apply lineOk_emit | apply lineOk_ret].
Qed.

Lemma lineOk_deref_code line p : codeOk line p → lineOk (deref p (emitterCode_ line)).
Proof. destruct p; [done | intros _; apply lineOk_undef]. Qed.

Lemma lineOk_branch line Node :
  codeOk line (l Node) → codeOk line (r Node) → lineOk (emitterBranch_ line Node).
Proof.
  intros Hl Hr. unfold emitterBranch_, debugEnter, debugLeave.
  apply lineOk_seq; [apply lineOk_ret|].
  apply lineOk_label. intros ElseLabel. apply lineOk_label. intros EndLabel.
  apply lineOk_value. intros Condition.
  apply lineOk_seq; [by apply lineOk_emit|].
  apply lineOk_seq; [by apply lineOk_deref_code|].
  apply lineOk_seq; [|apply lineOk_ret].
  destruct (r Node) as [else_|]; [|by apply lineOk_emit].
  repeat (apply lineOk_seq; [by apply lineOk_emit|]).
  apply lineOk_seq; [exact Hr | by apply lineOk_emit].
Qed.

(** Closing a construct that installed its own targets: [X] is what the
    nested block did. *)
Ltac ext_around X :=
  eapply extends_trans; [|eapply extends_trans; [exact X|]]; ext_explicit.

Ltac nested_call line X :=
  match goal with
  | |- context [emitterCode_ line ?n ?st] =>
      match goal with
      | Hn : lineOk (emitterCode_ line n) |- _ => pose proof (Hn st) as X
      end;
      destruct (emitterCode_ line n st) as [[] ?| ?|];
      [destruct X as [X ?] | | done]
  end.

Lemma lineOk_loop line Node :
  codeOk line (l Node) → codeOk line (r Node) → lineOk (emitterLoop_ line Node).
Proof.
  intros Hl Hr ctx. unfold emitterLoop_.
  destruct (l Node) as [lnode|]; [|done].
  destruct (r Node) as [rnode|]; cbn in Hl, Hr; run;
    destruct (bool_decide (tag lnode = astCode)); run;
    try done; nested_call line X; run.
  all: try (split; [ext_around X | by split]).
  all: try (ext_around X).
Qed.

Lemma lineOk_iter line Node :
  codeOk line (l Node) → lineOk (emitterIter_ line Node).
Proof.
  intros Hl ctx. unfold emitterIter_.
  destruct (children Node) as [|init [|cond rest]]; [by run..|].
  destruct (l Node) as [body|]; cbn in Hl; run;
    repeat case_decide; try destruct (astIsValueTag (tag init)); run;
    try done; try ext_explicit.
  all: nested_call line X; run; try (ext_around X).
  all: destruct (head rest) as [iter|]; run; [|done]; repeat case_decide; run.
  all: split; [ext_around X | by split].
Qed.

Lemma emitterLine_unfold Node :
  emitterLine Node =
    (debugEnter "Line";;
     asmComment EmptyString;;
     (if decide (tag Node = astBranch) then emitterBranch Node
      else if decide (tag Node = astLoop) then emitterLoop Node
      else if decide (tag Node = astIter) then emitterIter Node
      else if decide (tag Node = astCode) then emitterCode Node
      else if decide (tag Node = astReturn) then emitterReturn Node
      else if decide (tag Node = astBreak) then
        BreakTo ← gets labelBreakTo; asmJump BreakTo
      else if decide (tag Node = astContinue) then
        ContinueTo ← gets labelContinueTo; asmJump ContinueTo
      else if decide (tag Node = astDecl) then emitterDecl Node
      else if astIsValueTag (tag Node) then
        _ ← emitterValue (Some Node) requestVoid; mret tt
      else if decide (tag Node = astEmpty) then debugMsg "Empty"
      else debugErrorUnhandled "emitterLine" "AST tag" (astTagGetStr (tag Node)));;
     debugLeave).
Proof. by destruct Node. Qed.

Lemma emitterLine_and_Code_ok Node :
  lineOk (emitterLine Node) ∧ lineOk (emitterCode Node).
Proof.
  induction Node as [t ch lo ro s Hch Hlo Hro] using ast_nested_ind.
  assert (Hcode : lineOk (emitterCode (Ast t ch lo ro s))).
  { apply lineOk_code. cbn [children].
    eapply Forall_impl; [exact Hch|]. by intros x [Hx _]. }
  assert (Hl : codeOk emitterLine lo) by (destruct lo; [apply Hlo | done]).
  assert (Hr : codeOk emitterLine ro) by (destruct ro; [apply Hro | done]).
  split; [|exact Hcode].
  rewrite emitterLine_unfold. unfold debugEnter, debugLeave, debugMsg.
  apply lineOk_seq; [apply lineOk_ret|].
  apply lineOk_seq; [by apply lineOk_emit|].
  apply lineOk_seq; [|apply lineOk_ret].
  repeat case_decide.
  - by apply lineOk_branch.
  - by apply lineOk_loop.
  - by apply lineOk_iter.
  - exact Hcode.
  - apply lineOk_return.
  - apply lineOk_gets. intros L. by apply lineOk_emit.
  - apply lineOk_gets. intros L. by apply lineOk_emit.
  - apply lineOk_decl.
  - destruct (astIsValueTag _); [apply lineOk_value; intros _; apply lineOk_ret|].
    apply lineOk_unhandled || apply lineOk_ret.
  - destruct (astIsValueTag _); [apply lineOk_value; intros _; apply lineOk_ret|].
    apply lineOk_unhandled || apply lineOk_ret.
Qed.


Lemma emitterCode_ok Node : lineOk (emitterCode Node).
Proof. apply emitterLine_and_Code_ok. Qed.

Lemma emitterLoop_run line Node lnode rnode ctx :
  l Node = Some lnode → r Node = Some rnode →
  let isDo := bool_decide (tag lnode = astCode) in
  let cond := if isDo then rnode else lnode in
  let code := if isDo then lnode else rnode in
  let LoopLabel := operandLabel labelWhile (labelNo (Asm ctx)) in
  let EndLabel := operandLabel labelBreak (S (labelNo (Asm ctx))) in
  let ContinueLabel := operandLabel labelContinue (S (S (labelNo (Asm ctx)))) in
  let check := [EvValue (Some cond) requestFlags;
                EvBranch (valueOperand (Some cond) requestFlags) EndLabel] in
  let pretest := if isDo then [] else check in
  ∃ entry finish,
    emitterLoop_ line Node ctx
    = match emitterCode_ line code entry with
      | Done _ exit => Done tt (finish exit)
      | Fatal d c => Fatal d c
      | Undef => Undef
      end
    ∧ asmLog (Asm entry) = asmLog (Asm ctx) ++ pretest ++ [EvLabel LoopLabel]
    ∧ labelBreakTo entry = EndLabel
    ∧ labelContinueTo entry = ContinueLabel
    ∧ ∀ exit,
        asmLog (Asm (finish exit))
        = asmLog (Asm exit) ++ [EvComment EmptyString; EvLabel (labelContinueTo exit)]
            ++ check ++ [EvJump LoopLabel; EvLabel EndLabel]
        ∧ labelBreakTo (finish exit) = labelBreakTo ctx
        ∧ labelContinueTo (finish exit) = labelContinueTo ctx.
Proof.
  intros Hl Hr. cbn zeta. unfold emitterLoop_. rewrite Hl, Hr.
  run. destruct (bool_decide (tag lnode = astCode)); run.
  - do 2 eexists. split; [reflexivity|]. cbn [Asm asmLog labelBreakTo labelContinueTo].
    repeat split. by rewrite <- !app_assoc.
  - do 2 eexists. split; [reflexivity|]. cbn [Asm asmLog labelBreakTo labelContinueTo].
    repeat split; by rewrite <- !app_assoc.
Qed.

(** C1.  A loop node with both slots filled is lowered by the shape of its
    first slot alone.  When [l] holds a block-tagged node the loop is
    post-test: the condition comes from [r] and is checked once per
    iteration, after the body.  Otherwise it is pre-test: the condition is
    [l], the body is [r], and the check is emitted once more in front of the
    loop.  In both cases the sink receives: the pre-test check (pre-test
    only), the loop-top label, the body, a blank comment marker, the
    continue label, the check with its branch to the exit label, the jump
    to the loop top, and the exit label.  The body is lowered with the exit
    and continue labels installed as the current targets. *)
Theorem emitterLoop_sequence (Node lnode rnode : ast) (ctx : emitterCtx) :
  l Node = Some lnode → r Node = Some rnode →
  let isDo := bool_decide (tag lnode = astCode) in
  let cond := if isDo then rnode else lnode in
  let code := if isDo then lnode else rnode in
  let LoopLabel := operandLabel labelWhile (labelNo (Asm ctx)) in
  let EndLabel := operandLabel labelBreak (S (labelNo (Asm ctx))) in
  let ContinueLabel := operandLabel labelContinue (S (S (labelNo (Asm ctx)))) in
  let check := [EvValue (Some cond) requestFlags;
                EvBranch (valueOperand (Some cond) requestFlags) EndLabel] in
  let pretest := if isDo then [] else check in
  ∃ entry,
    asmLog (Asm entry) = asmLog (Asm ctx) ++ pretest ++ [EvLabel LoopLabel]
    ∧ labelBreakTo entry = EndLabel
    ∧ labelContinueTo entry = ContinueLabel
    ∧ (∀ ctx', emitterLoop Node ctx = Done tt ctx' →
         ∃ exit, emitterCode code entry = Done tt exit)
    ∧ (∀ exit, emitterCode code entry = Done tt exit →
         ∃ body ctx',
           asmLog (Asm exit) = asmLog (Asm entry) ++ body
           ∧ emitterLoop Node ctx = Done tt ctx'
           ∧ asmLog (Asm ctx')
             = asmLog (Asm ctx) ++ pretest ++ [EvLabel LoopLabel] ++ body
                 ++ [EvComment EmptyString; EvLabel ContinueLabel] ++ check
                 ++ [EvJump LoopLabel; EvLabel EndLabel]).
Proof.
  intros Hl Hr isDo cond code LoopLabel EndLabel ContinueLabel check pretest.
  destruct (emitterLoop_run emitterLine Node lnode rnode ctx Hl Hr)
    as (entry & finish & Heq & Hlog & Hb & Hc & Hfin).
  fold isDo cond code LoopLabel EndLabel ContinueLabel check pretest in Heq, Hlog, Hb, Hc, Hfin.
  fold (emitterLoop Node) in Heq. fold (emitterCode code) in Heq.
  exists entry. repeat (split; [done|]). split.
  - intros ctx' Hd. rewrite Heq in Hd.
    destruct (emitterCode code entry) as [[] exit| |]; [by exists exit | done..].
  - intros exit He. pose proof (emitterCode_ok code entry) as Hok.
    rewrite He in Hok. destruct Hok as [[_ _ _ _ (body & Hbody & _)] [_ Hcont]].
    exists body, (finish exit). split; [done|]. split; [by rewrite Heq, He|].
    destruct (Hfin exit) as (-> & _ & _).
    rewrite Hbody, Hlog, Hcont, Hc. by rewrite <- !app_assoc.
Qed.

Lemma emitterBranch_run line Node thenNode ctx :
  l Node = Some thenNode →
  let ElseLabel := operandLabel labelElse (labelNo (Asm ctx)) in
  let EndLabel := operandLabel labelEndIf (S (labelNo (Asm ctx))) in
  let check := [EvValue (firstChild Node) requestFlags;
                EvBranch (valueOperand (firstChild Node) requestFlags) ElseLabel] in
  ∃ entry enterElse finish,
    emitterBranch_ line Node ctx
    = match emitterCode_ line thenNode entry with
      | Done _ mid =>
          match r Node with
          | Some elseNode =>
              match emitterCode_ line elseNode (enterElse mid) with
              | Done _ exit => Done tt (finish exit)
              | Fatal d c => Fatal d c
              | Undef => Undef
              end
          | None => Done tt (finish mid)
          end
      | Fatal d c => Fatal d c
      | Undef => Undef
      end
    ∧ asmLog (Asm entry) = asmLog (Asm ctx) ++ check
    ∧ (∀ mid, asmLog (Asm (enterElse mid))
              = asmLog (Asm mid) ++ [EvComment EmptyString; EvJump EndLabel; EvLabel ElseLabel])
    ∧ (∀ c, asmLog (Asm (finish c))
            = asmLog (Asm c) ++ [EvLabel (if r Node is Some _ then EndLabel else ElseLabel)]).
Proof.
  intros Hl. cbn zeta. unfold emitterBranch_. rewrite Hl. run.
  match goal with
  | |- context [emitterCode_ line thenNode ?c] => exists c
  end.
  exists
    (λ mid, setAsm (asmEmit (EvLabel (operandLabel labelElse (labelNo (Asm ctx))))
              (asmEmit (EvJump (operandLabel labelEndIf (S (labelNo (Asm ctx)))))
                 (asmEmit (EvComment EmptyString) (Asm mid)))) mid),
    (λ c, setAsm (asmEmit (EvLabel (if r Node is Some _
                                    then operandLabel labelEndIf (S (labelNo (Asm ctx)))
                                    else operandLabel labelElse (labelNo (Asm ctx))))
                    (Asm c)) c).
  split.
  - destruct (emitterCode_ line thenNode _) as [[] mid| |]; [|done..].
    destruct (r Node) as [elseNode|]; run; [|done].
    by destruct (emitterCode_ line elseNode _) as [[] exit| |].
  - cbn [Asm asmLog setAsm asmEmit]. repeat split; intros; by rewrite <- !app_assoc.
Qed.

(** C6.  A branch node creates an else label and an end label, has the
    condition evaluated into the flags and emits the conditional jump to the
    else label (the sink's branch fires when the condition is false),
    followed by the then-branch.  With an else-branch there follow a
    blank comment marker, the jump to the end label, the else label, the
    else-branch and the end label; without one the else label comes
    directly after the then-branch.  So [if (cond) { A } else { B }] is
    lowered to: branch to ElseLabel; A; jump EndLabel; ElseLabel; B;
    EndLabel. *)
Theorem emitterBranch_sequence (Node thenNode : ast) (ctx : emitterCtx) :
  l Node = Some thenNode →
  let ElseLabel := operandLabel labelElse (labelNo (Asm ctx)) in
  let EndLabel := operandLabel labelEndIf (S (labelNo (Asm ctx))) in
  let check := [EvValue (firstChild Node) requestFlags;
                EvBranch (valueOperand (firstChild Node) requestFlags) ElseLabel] in
  let between := [EvComment EmptyString; EvJump EndLabel; EvLabel ElseLabel] in
  ∃ entry,
    asmLog (Asm entry) = asmLog (Asm ctx) ++ check
    ∧ (∀ ctx', emitterBranch Node ctx = Done tt ctx' →
         ∃ mid, emitterCode thenNode entry = Done tt mid)
    ∧ (∀ mid, emitterCode thenNode entry = Done tt mid →
         ∃ A, asmLog (Asm mid) = asmLog (Asm entry) ++ A ∧
           match r Node with
           | None =>
               ∃ ctx', emitterBranch Node ctx = Done tt ctx'
                 ∧ asmLog (Asm ctx')
                   = asmLog (Asm ctx) ++ check ++ A ++ [EvLabel ElseLabel]
           | Some elseNode =>
               ∃ entryElse,
                 asmLog (Asm entryElse) = asmLog (Asm mid) ++ between
                 ∧ (∀ ctx', emitterBranch Node ctx = Done tt ctx' →
                      ∃ exit, emitterCode elseNode entryElse = Done tt exit)
                 ∧ (∀ exit, emitterCode elseNode entryElse = Done tt exit →
                      ∃ B ctx',
                        asmLog (Asm exit) = asmLog (Asm entryElse) ++ B
                        ∧ emitterBranch Node ctx = Done tt ctx'
                        ∧ asmLog (Asm ctx')
                          = asmLog (Asm ctx) ++ check ++ A ++ between ++ B
                              ++ [EvLabel EndLabel])
           end).
Proof.
  intros Hl ElseLabel EndLabel check between.
  destruct (emitterBranch_run emitterLine Node thenNode ctx Hl)
    as (entry & enterElse & finish & Heq & Hlog & Henter & Hfin).
  fold ElseLabel EndLabel check between in Heq, Hlog, Henter, Hfin.
  fold (emitterBranch Node) in Heq. fold (emitterCode thenNode) in Heq.
  exists entry. split; [done|]. split.
  - intros ctx' Hd. rewrite Heq in Hd.
    destruct (emitterCode thenNode entry) as [[] mid| |]; [by exists mid | done..].
  - intros mid Hm. pose proof (emitterCode_ok thenNode entry) as Hok.
    rewrite Hm in Hok. destruct Hok as [[_ _ _ _ (A & HA & _)] _].
    exists A. split; [done|]. rewrite Hm in Heq.
    destruct (r Node) as [elseNode|].
    + fold (emitterCode elseNode) in Heq.
      exists (enterElse mid). split; [apply Henter|]. split.
      * intros ctx' Hd. rewrite Heq in Hd.
        destruct (emitterCode elseNode (enterElse mid)) as [[] exit| |];
          [by exists exit | done..].
      * intros exit He. pose proof (emitterCode_ok elseNode (enterElse mid)) as Hok.
        rewrite He in Hok. destruct Hok as [[_ _ _ _ (B & HB & _)] _].
        exists B, (finish exit). split; [done|]. split; [by rewrite Heq, He|].
        rewrite Hfin, HB, Henter, HA, Hlog. by rewrite <- !app_assoc.
    + exists (finish mid). split; [done|].
      rewrite Hfin, HA, Hlog. by rewrite <- !app_assoc.
Qed.

Lemma emitterIter_run line Node init cond iter rest body ctx :
  children Node = init :: cond :: iter :: rest → l Node = Some body →
  tag init = astDecl ∨ astIsValueTag (tag init) = true ∨ tag init = astEmpty →
  let LoopLabel := operandLabel labelFor (labelNo (Asm ctx)) in
  let EndLabel := operandLabel labelBreak (S (labelNo (Asm ctx))) in
  let ContinueLabel := operandLabel labelContinue (S (S (labelNo (Asm ctx)))) in
  let initEvents :=
    if decide (tag init = astDecl) then [EvDecl init; EvComment EmptyString]
    else if astIsValueTag (tag init) then [EvValue (Some init) requestVoid; EvComment EmptyString]
    else [] in
  let check :=
    if decide (tag cond = astEmpty) then []
    else [EvValue (Some cond) requestFlags;
          EvBranch (valueOperand (Some cond) requestFlags) EndLabel] in
  let step :=
    if decide (tag iter = astEmpty) then []
    else [EvValue (Some iter) requestVoid; EvComment EmptyString] in
  ∃ entry finish,
    emitterIter_ line Node ctx
    = match emitterCode_ line body entry with
      | Done _ exit => Done tt (finish exit)
      | Fatal d c => Fatal d c
      | Undef => Undef
      end
    ∧ asmLog (Asm entry) = asmLog (Asm ctx) ++ initEvents ++ [EvLabel LoopLabel] ++ check
    ∧ labelBreakTo entry = EndLabel
    ∧ labelContinueTo entry = ContinueLabel
    ∧ ∀ exit,
        asmLog (Asm (finish exit))
        = asmLog (Asm exit) ++ [EvComment EmptyString; EvLabel (labelContinueTo exit)]
            ++ step ++ [EvJump LoopLabel; EvLabel EndLabel]
        ∧ labelBreakTo (finish exit) = labelBreakTo ctx
        ∧ labelContinueTo (finish exit) = labelContinueTo ctx.
Proof.
  intros Hch Hl Hinit. cbn zeta. unfold emitterIter_. rewrite Hch, Hl.
  cbn [head]. run.
  destruct (decide (tag init = astDecl)) as [Hd|Hd];
    [|destruct (astIsValueTag (tag init)) eqn:Hv;
      [|rewrite (decide_False (P := tag init ≠ astEmpty)) by (intros H; apply H; destruct Hinit as [?|[?|?]]; congruence)]].
  all: destruct (decide (tag cond = astEmpty)) as [Hc|Hc];
    [rewrite (decide_False (P := tag cond ≠ astEmpty)) by (intros H; by apply H)
    |rewrite (decide_True (P := tag cond ≠ astEmpty)) by done].
  all: destruct (decide (tag iter = astEmpty)) as [Hi|Hi];
    [rewrite (decide_False (P := tag iter ≠ astEmpty)) by (intros H; by apply H)
    |rewrite (decide_True (P := tag iter ≠ astEmpty)) by done].
  all: run; do 2 eexists; (split; [reflexivity|]);
    cbn [Asm asmLog labelBreakTo labelContinueTo];
    repeat split; by rewrite <- ?app_assoc.
Qed.

(** C7.  A counted iteration is lowered in the fixed order init, condition,
    body, step.  An init that is a declaration goes to the declaration
    emitter and one that is an expression is evaluated for its effect; an
    empty init emits nothing.  After the loop-top label the condition is
    evaluated into the flags and the conditional jump to the exit label is
    emitted only when the condition child is not empty.  Then come the
    body, a blank comment marker, the continue label, the step expression
    evaluated with the discard request only when it is not empty, the jump
    to the loop top and the exit label.  For [for (;;) { if (done) break; }]
    there is no check at the loop top and the [break] jumps to the exit
    label of the iteration. *)
Theorem emitterIter_sequence :
  (∀ (Node init cond iter : ast) (rest : list ast) (body : ast) (ctx : emitterCtx),
     children Node = init :: cond :: iter :: rest → l Node = Some body →
     tag init = astDecl ∨ astIsValueTag (tag init) = true ∨ tag init = astEmpty →
     let LoopLabel := operandLabel labelFor (labelNo (Asm ctx)) in
     let EndLabel := operandLabel labelBreak (S (labelNo (Asm ctx))) in
     let ContinueLabel := operandLabel labelContinue (S (S (labelNo (Asm ctx)))) in
     let initEvents :=
       if decide (tag init = astDecl) then [EvDecl init; EvComment EmptyString]
       else if astIsValueTag (tag init)
            then [EvValue (Some init) requestVoid; EvComment EmptyString]
            else [] in
     let check :=
       if decide (tag cond = astEmpty) then []
       else [EvValue (Some cond) requestFlags;
             EvBranch (valueOperand (Some cond) requestFlags) EndLabel] in
     let step :=
       if decide (tag iter = astEmpty) then []
       else [EvValue (Some iter) requestVoid; EvComment EmptyString] in
     (astIsValueTag astEmpty = false → tag init = astEmpty → initEvents = [])
     ∧ ∃ entry,
         asmLog (Asm entry)
         = asmLog (Asm ctx) ++ initEvents ++ [EvLabel LoopLabel] ++ check
         ∧ labelBreakTo entry = EndLabel
         ∧ labelContinueTo entry = ContinueLabel
         ∧ (∀ ctx', emitterIter Node ctx = Done tt ctx' →
              ∃ exit, emitterCode body entry = Done tt exit)
         ∧ (∀ exit, emitterCode body entry = Done tt exit →
              ∃ bodyEvents ctx',
                asmLog (Asm exit) = asmLog (Asm entry) ++ bodyEvents
                ∧ emitterIter Node ctx = Done tt ctx'
                ∧ asmLog (Asm ctx')
                  = asmLog (Asm ctx) ++ initEvents ++ [EvLabel LoopLabel] ++ check
                      ++ bodyEvents ++ [EvComment EmptyString; EvLabel ContinueLabel]
                      ++ step ++ [EvJump LoopLabel; EvLabel EndLabel]))
  ∧ (∀ (done : ast) (ctx : emitterCtx),
       astIsValueTag astEmpty = false →
       let empty := Ast astEmpty [] None None None in
       let block := λ lines, Ast astCode lines None None None in
       let break_ := Ast astBreak [] None None None in
       let if_ := Ast astBranch [done] (Some (block [break_])) None None in
       let for_ := Ast astIter [empty; empty; empty] (Some (block [if_])) None None in
       let n := labelNo (Asm ctx) in
       let LoopLabel := operandLabel labelFor n in
       let EndLabel := operandLabel labelBreak (S n) in
       let ContinueLabel := operandLabel labelContinue (S (S n)) in
       let ElseLabel := operandLabel labelElse (S (S (S n))) in
       ∃ ctx', emitterLine for_ ctx = Done tt ctx'
         ∧ asmLog (Asm ctx')
           = asmLog (Asm ctx)
               ++ [EvComment EmptyString; EvLabel LoopLabel;
                   EvEnter;
                     EvComment EmptyString; EvValue (Some done) requestFlags;
                     EvBranch (valueOperand (Some done) requestFlags) ElseLabel;
                     EvEnter; EvComment EmptyString; EvJump EndLabel; EvLeave;
                     EvLabel ElseLabel;
                   EvLeave;
                   EvComment EmptyString; EvLabel ContinueLabel;
                   EvJump LoopLabel; EvLabel EndLabel]).
Proof.
  split.
  - intros Node init cond iter rest body ctx Hch Hl Hinit
      LoopLabel EndLabel ContinueLabel initEvents check step.
    split.
    { intros He Ht. unfold initEvents. rewrite Ht, He. by rewrite decide_False. }
    destruct (emitterIter_run emitterLine Node init cond iter rest body ctx Hch Hl Hinit)
      as (entry & finish & Heq & Hlog & Hb & Hc & Hfin).
    fold LoopLabel EndLabel ContinueLabel initEvents check step in Heq, Hlog, Hb, Hc, Hfin.
    fold (emitterIter Node) in Heq. fold (emitterCode body) in Heq.
    exists entry. repeat (split; [done|]). split.
    + intros ctx' Hd. rewrite Heq in Hd.
      destruct (emitterCode body entry) as [[] exit| |]; [by exists exit | done..].
    + intros exit He. pose proof (emitterCode_ok body entry) as Hok.
      rewrite He in Hok. destruct Hok as [[_ _ _ _ (evs & Hevs & _)] [_ Hcont]].
      exists evs, (finish exit). split; [done|]. split; [by rewrite Heq, He|].
      destruct (Hfin exit) as (-> & _ & _).
      rewrite Hevs, Hlog, Hcont, Hc. by rewrite <- !app_assoc.
  - intros done ctx He. cbn zeta.
    eexists. split.
    + cbv -[app]. rewrite He. cbv -[app]. reflexivity.
    + cbn [Asm asmLog]. by rewrite <- !app_assoc.
Qed.


Lemma emitterFnAllocateStack_label a fn :
  label (emitterFnAllocateStack a fn).1 = label fn.
Proof.
  rewrite emitterFnAllocateStack_unfold. cbn [fst].
  rewrite emitterScopeAssignOffsets_unfold.
  by destruct (scopeLoop _ _ _).
Qed.

Lemma emitterFnImpl_run Node p fn body syms ctx :
  symbol Node = Some p → syms !! p = Some fn → r Node = Some body →
  let a := arch ctx in
  let mangled := if decide (label fn = 0) then symbolMangler a fn else fn in
  let fn' := (emitterFnAllocateStack a mangled).1 in
  let stacksize := (emitterFnAllocateStack a mangled).2 in
  let EndLabel := operandLabel labelReturn (labelNo (Asm ctx)) in
  ∃ entry finish,
    emitterFnImpl Node syms ctx
    = match emitterCode body entry with
      | Done _ exit => Done (<[p := fn']> syms) (finish exit)
      | Fatal d c => Fatal d c
      | Undef => Undef
      end
    ∧ asmLog (Asm entry)
      = asmLog (Asm ctx) ++ [EvComment EmptyString; EvFnPrologue (label fn') stacksize]
    ∧ labelReturnTo entry = EndLabel
    ∧ ∀ exit,
        asmLog (Asm (finish exit)) = asmLog (Asm exit) ++ [EvFnEpilogue EndLabel]
        ∧ labelReturnTo (finish exit) = labelReturnTo exit.
Proof.
  intros Hs Hp Hr. cbn zeta. unfold emitterFnImpl. rewrite Hs, Hp, Hr. run.
  destruct (emitterFnAllocateStack (arch ctx) _) as [fn' stacksize]. run.
  do 2 eexists. split; [reflexivity|]. cbn [Asm asmLog labelReturnTo fst snd].
  repeat split. by rewrite <- !app_assoc.
Qed.


(** C9.  Labelling a function is idempotent.  The mangler of the
    architecture runs only when the label of the symbol is unset (zero):
    after a function-implementation node is lowered its symbol carries the
    mangler's label if it had none and its old label otherwise.  Lowering
    the same node a second time therefore keeps a label that is set. *)
Theorem emitterFnImpl_label_idempotent :
  (∀ (Node : ast) (p : nat) (fn : sym) (syms syms' : gmap nat sym)
     (ctx ctx' : emitterCtx),
     symbol Node = Some p → syms !! p = Some fn →
     emitterFnImpl Node syms ctx = Done syms' ctx' →
     ∃ fn', syms' !! p = Some fn'
       ∧ label fn' = (if decide (label fn = 0)
                      then label (symbolMangler (arch ctx) fn)
                      else label fn))
  ∧ (∀ (Node : ast) (p : nat) (fn1 : sym) (syms syms1 syms2 : gmap nat sym)
       (ctx ctx1 ctx2 : emitterCtx),
       symbol Node = Some p →
       emitterFnImpl Node syms ctx = Done syms1 ctx1 →
       emitterFnImpl Node syms1 ctx1 = Done syms2 ctx2 →
       syms1 !! p = Some fn1 → label fn1 ≠ 0 →
       ∃ fn2, syms2 !! p = Some fn2 ∧ label fn2 = label fn1).
Proof.
  assert (Hfirst : ∀ (Node : ast) (p : nat) (fn : sym) (syms syms' : gmap nat sym)
            (ctx ctx' : emitterCtx),
            symbol Node = Some p → syms !! p = Some fn →
            emitterFnImpl Node syms ctx = Done syms' ctx' →
            ∃ fn', syms' !! p = Some fn'
              ∧ label fn' = (if decide (label fn = 0)
                             then label (symbolMangler (arch ctx) fn)
                             else label fn)).
  { intros Node p fn syms syms' ctx ctx' Hs Hp Hd.
    destruct (r Node) as [code|] eqn:Hr.
    2:{ unfold emitterFnImpl in Hd. rewrite Hs, Hp, Hr in Hd. revert Hd. run.
        by destruct (emitterFnAllocateStack _ _). }
    destruct (emitterFnImpl_run Node p fn code syms ctx Hs Hp Hr)
      as (entry & finish & Heq & _).
    rewrite Heq in Hd.
    destruct (emitterCode code entry) as [[] exit| |]; [|done..].
    injection Hd as <- _. eexists. split; [apply lookup_insert_eq|].
    rewrite emitterFnAllocateStack_label. by case_decide. }
  split; [exact Hfirst|].
  intros Node p fn1 syms syms1 syms2 ctx ctx1 ctx2 Hs _ H2 Hp Hl.
  destruct (Hfirst Node p fn1 syms1 syms2 ctx1 ctx2 Hs Hp H2) as (fn2 & Hfn2 & Hlab).
  exists fn2. split; [done|]. by rewrite decide_False in Hlab.
Qed.

Lemma forEach_app (line : ast → emit unit) xs ys ctx :
  forEach line (xs ++ ys) ctx
  = match forEach line xs ctx with
    | Done _ c => forEach line ys c
    | Fatal d c => Fatal d c
    | Undef => Undef
    end.
Proof.
  revert ctx. induction xs as [|x xs IH]; intros ctx; [done|].
  cbn [app forEach]. unfold mbind, emit_bind.
  destruct (line x ctx) as [[] c| |]; [apply IH | done..].
Qed.

Lemma forEachSym_app f xs ys (syms : gmap nat sym) ctx :
  forEachSym f (xs ++ ys) syms ctx
  = match forEachSym f xs syms ctx with
    | Done syms' c => forEachSym f ys syms' c
    | Fatal d c => Fatal d c
    | Undef => Undef
    end.
Proof.
  revert syms ctx. induction xs as [|x xs IH]; intros syms ctx; [done|].
  cbn [app forEachSym]. unfold mbind, emit_bind.
  destruct (f x syms ctx) as [syms' c| |]; [apply IH | done..].
Qed.

Lemma emitterModule_unfold Node (syms : gmap nat sym) :
  emitterModule Node syms
  = (debugEnter "Module";;
     syms' ← forEachSym emitterModuleChild (children Node) syms;
     debugLeave;;
     mret syms').
Proof. by destruct Node. Qed.

(** C8.  A tag outside the handled set is fatal.  The statement dispatch
    and the module dispatch stop at a diagnostic that names the offending
    tag; the rest of the block, of the function, of the module and of the
    file is not lowered: the run ends in the very state in which the
    failure was raised, whatever nodes follow, and not even the file
    epilogue is written. *)
Theorem unhandled_tag_is_fatal :
  (∀ (Node : ast) (ctx : emitterCtx),
     tag Node ∉ [astBranch; astLoop; astIter; astCode; astReturn; astBreak;
                 astContinue; astDecl; astEmpty] →
     astIsValueTag (tag Node) = false →
     ∃ c, emitterLine Node ctx
          = Fatal (Diagnostic "emitterLine" "AST tag" (astTagGetStr (tag Node))) c
       ∧ asmLog (Asm c) = asmLog (Asm ctx) ++ [EvComment EmptyString])
  ∧ (∀ (block : ast) (before after : list ast) (bad : ast)
       (ctx c1 c : emitterCtx) (d : diagnostic),
       children block = before ++ bad :: after →
       forEach emitterLine before
         (setAsm (asmEmit EvEnter (Asm ctx)) ctx) = Done tt c1 →
       emitterLine bad c1 = Fatal d c →
       emitterCode block ctx = Fatal d c)
  ∧ (∀ (Node code : ast) (p : nat) (fn : sym) (syms : gmap nat sym)
       (ctx : emitterCtx),
       symbol Node = Some p → syms !! p = Some fn → r Node = Some code →
       ∃ entry, ∀ d c, emitterCode code entry = Fatal d c →
                       emitterFnImpl Node syms ctx = Fatal d c)
  ∧ (∀ (Node : ast) (before after : list ast) (bad : ast)
       (syms syms1 : gmap nat sym) (ctx c1 : emitterCtx),
       children Node = before ++ bad :: after →
       tag bad ∉ [astUsing; astFnImpl; astDecl; astEmpty] →
       forEachSym emitterModuleChild before syms ctx = Done syms1 c1 →
       emitterModule Node syms ctx
       = Fatal (Diagnostic "emitterModule" "AST tag" (astTagGetStr (tag bad))) c1)
  ∧ (∀ (Node : ast) (before after : list ast) (bad : ast)
       (syms syms1 : gmap nat sym) (ctx c1 c : emitterCtx) (d : diagnostic),
       children Node = before ++ bad :: after →
       forEachSym emitterModuleChild before syms ctx = Done syms1 c1 →
       emitterModuleChild bad syms1 c1 = Fatal d c →
       emitterModule Node syms ctx = Fatal d c)
  ∧ (∀ (Tree : ast) (output : string) (a : architecture) (heap : operand)
       (syms : gmap nat sym) (d : diagnostic) (c : emitterCtx),
       emitterModule Tree syms
         (setAsm (asmEmit EvFilePrologue (asmInit output a))
            (emitterInit output a heap)) = Fatal d c →
       emitter Tree output a heap syms = Fatal d c).
Proof.
  repeat split.
  - intros Node ctx Hn Hv. rewrite !not_elem_of_cons in Hn.
    destruct Hn as (? & ? & ? & ? & ? & ? & ? & ? & ? & _).
    rewrite emitterLine_unfold. rewrite !decide_False by done. rewrite Hv. run.
    eexists. split; [reflexivity|]. done.
  - intros block before after bad ctx c1 c d Hch Hb Hbad.
    unfold emitterCode, emitterCode_. rewrite Hch. run.
    rewrite forEach_app.
    match goal with |- context [forEach emitterLine before ?st] =>
      change st with (setAsm (asmEmit EvEnter (Asm ctx)) ctx) end.
    rewrite Hb. cbn [forEach]. unfold mbind, emit_bind. by rewrite Hbad.
  - intros Node code p fn syms ctx Hs Hp Hr.
    destruct (emitterFnImpl_run Node p fn code syms ctx Hs Hp Hr)
      as (entry & finish & Heq & _).
    exists entry. intros d c Hc. by rewrite Heq, Hc.
  - intros Node before after bad syms syms1 ctx c1 Hch Hn Hb.
    rewrite !not_elem_of_cons in Hn. destruct Hn as (? & ? & ? & ? & _).
    rewrite emitterModule_unfold, Hch. run. rewrite forEachSym_app, Hb.
    assert (Hbad : emitterModuleChild bad syms1 c1
                   = Fatal (Diagnostic "emitterModule" "AST tag"
                              (astTagGetStr (tag bad))) c1).
    { unfold emitterModuleChild, emitterModuleChild_.
      by rewrite !decide_False by done. }
    cbn [forEachSym]. unfold mbind, emit_bind. by rewrite Hbad.
  - intros Node before after bad syms syms1 ctx c1 c d Hch Hb Hbad.
    rewrite emitterModule_unfold, Hch. run. rewrite forEachSym_app, Hb.
    cbn [forEachSym]. unfold mbind, emit_bind. by rewrite Hbad.
  - intros Tree output a heap syms d c Hm. unfold emitter. run.
    match goal with |- context [emitterModule Tree syms ?st] =>
      change st with (setAsm (asmEmit EvFilePrologue (asmInit output a))
                        (emitterInit output a heap)) end.
    by rewrite Hm.
Qed.

(** C10.  [emitterInit] sets the return target and the break target to the
    undefined operand and does not write the continue target, which holds
    whatever the allocator left there.  A [continue] outside any loop is
    therefore lowered to a jump to that indeterminate operand, while a
    [break] outside any loop is lowered to a jump to the undefined
    operand. *)
Theorem emitterInit_leaves_continue_unset :
  (∀ (output : string) (a : architecture) (heap : operand),
     labelReturnTo (emitterInit output a heap) = operandCreate operandUndefined
     ∧ labelBreakTo (emitterInit output a heap) = operandCreate operandUndefined
     ∧ labelContinueTo (emitterInit output a heap) = heap)
  ∧ (∀ (Node : ast) (ctx : emitterCtx),
       tag Node = astContinue →
       ∃ ctx', emitterLine Node ctx = Done tt ctx'
         ∧ asmLog (Asm ctx')
           = asmLog (Asm ctx) ++ [EvComment EmptyString; EvJump (labelContinueTo ctx)])
  ∧ (∀ (Node : ast) (ctx : emitterCtx),
       tag Node = astBreak →
       ∃ ctx', emitterLine Node ctx = Done tt ctx'
         ∧ asmLog (Asm ctx')
           = asmLog (Asm ctx) ++ [EvComment EmptyString; EvJump (labelBreakTo ctx)])
  ∧ (∀ (output : string) (a : architecture) (heap : operand)
       (syms : gmap nat sym) (p : nat) (fn : sym),
       syms !! p = Some fn →
       let continue_ := Ast astContinue [] None None None in
       let break_ := Ast astBreak [] None None None in
       let body := Ast astCode [continue_; break_] None None None in
       let fnImpl := Ast astFnImpl [] None (Some body) (Some p) in
       let Tree := Ast (astTagOther 0) [fnImpl] None None None in
       ∃ syms' ctx' name stacksize,
         emitter Tree output a heap syms = Done syms' ctx'
         ∧ asmLog (Asm ctx')
           = [EvFilePrologue; EvComment EmptyString; EvFnPrologue name stacksize;
              EvEnter;
                EvComment EmptyString; EvJump heap;
                EvComment EmptyString; EvJump (operandCreate operandUndefined);
              EvLeave;
              EvFnEpilogue (operandLabel labelReturn 0); EvFileEpilogue]).
Proof.
  repeat split.
  - intros Node ctx Ht. rewrite emitterLine_unfold, Ht. run.
    eexists. split; [reflexivity|]. cbn [Asm asmLog]. by rewrite <- !app_assoc.
  - intros Node ctx Ht. rewrite emitterLine_unfold, Ht. run.
    eexists. split; [reflexivity|]. cbn [Asm asmLog]. by rewrite <- !app_assoc.
  - intros output a heap syms p fn Hp. cbn zeta.
    unfold emitter. rewrite emitterModule_unfold.
    unfold emitterModuleChild, emitterModuleChild_, emitterFnImpl.
    cbn [children forEachSym tag symbol r]. rewrite Hp.
    rewrite decide_False by done. rewrite decide_True by done. run.
    destruct (emitterFnAllocateStack _ _) as [fn' stacksize].
    do 4 eexists. split; [cbv -[app insert]; reflexivity|]. reflexivity.
Qed.

End Emitter.

(** * The statements at work on the sample programs *)

Local Abbreviation onLines f :=
  (f Sample.astIsValueTag Sample.astTagGetStr Sample.valueOperand
     Sample.valueLabels Sample.declLabels) (only parsing).
Local Abbreviation onFrames f :=
  (f Sample.typeGetSize Sample.typeGetReturn) (only parsing).
Local Abbreviation onFunctions f :=
  (f Sample.typeGetSize Sample.typeGetReturn Sample.astIsValueTag
     Sample.astTagGetStr Sample.valueOperand Sample.valueLabels
     Sample.declLabels) (only parsing).

(** [while (1) { break; }] is lowered as a pre-test loop. *)
Lemma emitterLoop_sequence_witness :
  ∃ body ctx',
    onLines emitterLoop Sample.whileLoop Sample.ctx0 = Done tt ctx'
    ∧ asmLog (Asm ctx')
      = [EvValue (Some Sample.literal) requestFlags;
         EvBranch Sample.flags (operandLabel labelBreak 1);
         EvLabel (operandLabel labelWhile 0)]
          ++ body
          ++ [EvComment EmptyString; EvLabel (operandLabel labelContinue 2);
              EvValue (Some Sample.literal) requestFlags;
              EvBranch Sample.flags (operandLabel labelBreak 1);
              EvJump (operandLabel labelWhile 0);
              EvLabel (operandLabel labelBreak 1)].
Proof.
  pose proof (onLines emitterLoop_sequence Sample.whileLoop Sample.literal
                (Sample.block [Sample.leaf astBreak]) Sample.ctx0
                eq_refl eq_refl) as H.
  cbv zeta in H. destruct H as (entry & _ & _ & _ & Hconv & Hfwd).
  edestruct Hconv as [exit Hexit]; [vm_compute; reflexivity|].
  destruct (Hfwd exit Hexit) as (body & ctx' & _ & Hrun & Hlog).
  exists body, ctx'. split; [exact Hrun | exact Hlog].
Defined.





(** [if (1) { 1; } else { break; }] *)
Lemma emitterBranch_sequence_witness :
  ∃ A B ctx',
    onLines emitterBranch Sample.ifElse Sample.ctx0 = Done tt ctx'
    ∧ asmLog (Asm ctx')
      = [EvValue (Some Sample.literal) requestFlags;
         EvBranch Sample.flags (operandLabel labelElse 0)]
          ++ A
          ++ [EvComment EmptyString; EvJump (operandLabel labelEndIf 1);
              EvLabel (operandLabel labelElse 0)]
          ++ B ++ [EvLabel (operandLabel labelEndIf 1)].
Proof.
  pose proof (onLines emitterBranch_sequence Sample.ifElse
                (Sample.block [Sample.literal]) Sample.ctx0 eq_refl) as H.
  cbv zeta in H. destruct H as (entry & _ & Hconv & Hfwd).
  edestruct Hconv as [mid Hmid]; [vm_compute; reflexivity|].
  destruct (Hfwd mid Hmid) as (A & _ & Helse). cbn [r Sample.ifElse] in Helse.
  destruct Helse as (entryElse & _ & Hconv2 & Hfwd2).
  edestruct Hconv2 as [exit Hexit]; [vm_compute; reflexivity|].
  destruct (Hfwd2 exit Hexit) as (B & ctx' & _ & Hrun & Hlog).
  exists A, B, ctx'. split; [exact Hrun | exact Hlog].
Defined.

(** [for (1; 1; 1) { continue; }] *)
Lemma emitterIter_sequence_witness :
  ∃ body ctx',
    onLines emitterIter Sample.forLoop Sample.ctx0 = Done tt ctx'
    ∧ asmLog (Asm ctx')
      = [EvValue (Some Sample.literal) requestVoid; EvComment EmptyString;
         EvLabel (operandLabel labelFor 0);
         EvValue (Some Sample.literal) requestFlags;
         EvBranch Sample.flags (operandLabel labelBreak 1)]
          ++ body
          ++ [EvComment EmptyString; EvLabel (operandLabel labelContinue 2);
              EvValue (Some Sample.literal) requestVoid; EvComment EmptyString;
              EvJump (operandLabel labelFor 0);
              EvLabel (operandLabel labelBreak 1)].
Proof.
  pose proof (onLines emitterIter_sequence) as [Hiter _].
  pose proof (Hiter Sample.forLoop Sample.literal Sample.literal Sample.literal []
                (Sample.block [Sample.leaf astContinue]) Sample.ctx0
                eq_refl eq_refl (or_intror (or_introl eq_refl))) as H.
  cbv zeta in H. destruct H as (_ & entry & _ & _ & _ & Hconv & Hfwd).
  edestruct Hconv as [exit Hexit]; [vm_compute; reflexivity|].
  destruct (Hfwd exit Hexit) as (body & ctx' & _ & Hrun & Hlog).
  exists body, ctx'. split; [exact Hrun | exact Hlog].
Defined.

(** The sample module stops at its second node: one function has been
    lowered, the diagnostic names the tag, and nothing follows. *)
Lemma unhandled_tag_is_fatal_witness :
  ∃ c,
    onFunctions emitterModule Sample.badModule Sample.syms Sample.ctx0
    = Fatal (Diagnostic "emitterModule" "AST tag" "astStruct") c
    ∧ List.filter isFnEpilogue (asmLog (Asm c))
      = [EvFnEpilogue (operandLabel labelReturn 0)].
Proof.
  pose proof (onFunctions unhandled_tag_is_fatal) as (_ & _ & _ & Hmod & _).
  eexists. split.
  - eapply (Hmod Sample.badModule [Sample.fnImpl] [Sample.fnImpl]
              (Sample.leaf Sample.astStruct)).
    + reflexivity.
    + rewrite !not_elem_of_cons. repeat split; try discriminate.
      apply not_elem_of_nil.
    + vm_compute. reflexivity.
  - vm_compute. reflexivity.
Defined.

(** Lowering the sample function twice keeps the label of the first run. *)
Lemma emitterFnImpl_label_idempotent_witness :
  ∃ syms1 ctx1 syms2 ctx2 fn2,
    onFunctions emitterFnImpl Sample.fnImpl Sample.syms Sample.ctx0
    = Done syms1 ctx1
    ∧ onFunctions emitterFnImpl Sample.fnImpl syms1 ctx1 = Done syms2 ctx2
    ∧ syms2 !! 0%nat = Some fn2 ∧ label fn2 = 1.
Proof.
  pose proof (onFunctions emitterFnImpl_label_idempotent) as [_ Htwice].
  do 4 eexists.
  assert (H1 : onFunctions emitterFnImpl Sample.fnImpl Sample.syms Sample.ctx0
               = Done _ _) by (vm_compute; reflexivity).
  edestruct (Htwice Sample.fnImpl 0%nat) as (fn2 & Hfn2 & Hlabel);
    [reflexivity | exact H1 | vm_compute; reflexivity | vm_compute; reflexivity
    | discriminate |].
  exists fn2. split; [exact H1|]. split; [vm_compute; reflexivity|].
  split; [exact Hfn2 | exact Hlabel].
Defined.

(** A function whose body is [{ continue; break; }]: the first jump goes
    to whatever the allocator left behind, the second to the undefined
    operand. *)
Lemma emitterInit_leaves_continue_unset_witness :
  ∃ syms' ctx' name stacksize,
    onFunctions emitter
      (Ast (astTagOther 0)
         [Ast astFnImpl [] None
            (Some (Ast astCode [Ast astContinue [] None None None;
                                Ast astBreak [] None None None] None None None))
            (Some 0%nat)] None None None)
      "out.s" Sample.amd64 Sample.heap Sample.syms
    = Done syms' ctx'
    ∧ asmLog (Asm ctx')
      = [EvFilePrologue; EvComment EmptyString; EvFnPrologue name stacksize;
         EvEnter;
           EvComment EmptyString; EvJump Sample.heap;
           EvComment EmptyString; EvJump (operandCreate operandUndefined);
         EvLeave;
         EvFnEpilogue (operandLabel labelReturn 0); EvFileEpilogue].
Proof.
  pose proof (onFunctions emitterInit_leaves_continue_unset) as (_ & _ & _ & Hfull).
  exact (Hfull "out.s" Sample.amd64 Sample.heap Sample.syms 0%nat Sample.fnXY eq_refl).
Defined.
